(** * jobs-minimal: the relevance scorer and the scraping pipeline

    A shallow embedding of [docsim.py] (the scorer [rate_text]) and of the
    pure control flow of [main.py] ([rate_job], [create_time_param],
    [get_job_info], [extractDescription], [get_job_cards], [extractJobs]),
    followed by the properties of the specification. The second scorer of
    [docsim2.py] and the entry point [main] of [main.py] are embedded as
    well, with properties read off their code.

    Conventions.
    - Python [str] is [string]; the model covers ASCII text: [str.lower]
      maps [A-Z] to [a-z], and the regular expression class [\w] is
      [[A-Za-z0-9_]].
    - Python [float] is the kernel's binary64 [float]; [int / int] converts
      both counts (exact below 2^53) and divides.
    - A Python exception is a value [Raise e] of the [result] type; a local
      variable that may be unbound is an [option]. The [print] of
      [rate_text] is left out.
    - The network and the HTML parser are a parameter [web] giving, for each
      URL, what [requests.get] followed by [BeautifulSoup] finds there.
    - [CountVectorizer()] of [docsim2.py] is taken with its defaults:
      lower-cased documents, tokens of two or more word characters, a sorted
      vocabulary, [ValueError] on an empty one. *)

From Stdlib Require Import ZArith Ascii String List Lia.
From Stdlib Require Import Floats.
From stdpp Require Import base option list strings gmap.
From stdpp Require Import sorting.

Local Open Scope string_scope.
Local Open Scope list_scope.

(** ** Python exceptions and results *)

Inductive exn : Set :=
  | AttributeError | TypeError | KeyError | UnboundLocalError
  | ConnectionError | ValueError | OverflowError | ZeroDivisionError.

Inductive result (A : Type) : Type :=
  | Ok (a : A)
  | Raise (e : exn).
Arguments Ok {A} a.
Arguments Raise {A} e.

Definition rbind {A B} (r : result A) (k : A -> result B) : result B :=
  match r with
  | Ok a => k a
  | Raise e => Raise e
  end.

Notation "x <-! r ; k" := (rbind r (fun x => k))
  (at level 100, r at next level, right associativity).

(** ** ASCII characters *)

Module Char.

Definition code (c : ascii) : N := N_of_ascii c.

Definition between (lo hi : N) (c : ascii) : bool :=
  ((lo <=? code c) && (code c <=? hi))%N.

Definition is_upper : ascii -> bool := between 65 90.
Definition is_lower : ascii -> bool := between 97 122.
Definition is_digit : ascii -> bool := between 48 57.

(** [str.lower] on one character. *)
Definition lower (c : ascii) : ascii :=
  if is_upper c then ascii_of_N (code c + 32) else c.



(** The class [\w]. *)
Definition is_word (c : ascii) : bool :=
  is_lower c || is_upper c || is_digit c || Ascii.eqb c "_".

(** What [str.strip] removes. *)
Definition is_space (c : ascii) : bool :=
  between 9 13 c || between 28 32 c.

End Char.

(** ** docsim.py *)

Module Docsim.

(** [text.lower()] *)
Fixpoint lower (s : string) : string :=
  match s with
  | EmptyString => EmptyString
  | String c s' => String (Char.lower c) (lower s')
  end.

(** One left-to-right pass of [re.findall(r'\b\w+\b', text)]: [run] is the
    word being read, kept reversed; a word ends at the first character
    outside [\w] or at the end of the text, so every match is a maximal run
    of word characters. *)
Fixpoint scan (run : list ascii) (s : string) : list string :=
  match s with
  | EmptyString =>
      match run with
      | [] => []
      | _ => [string_of_list_ascii (rev run)]
      end
  | String c s' =>
      if Char.is_word c then scan (c :: run) s'
      else
        match run with
        | [] => scan [] s'
        | _ => string_of_list_ascii (rev run) :: scan [] s'
        end
  end.

Definition findall_words (text : string) : list string := scan [] text.

(** [collections.Counter(words)]: one increment per word, and a lookup
    that answers 0 for a key that was never counted. *)
Definition Counter (ws : list string) : gmap string nat :=
  foldl (fun m w => <[w := S (default 0 (m !! w))]> m) ∅ ws.

Definition count_of (m : gmap string nat) (k : string) : nat :=
  default 0 (m !! k).

(** The locals of [rate_text], in the order the function computes them. *)
Definition words (text : string) : list string :=
  findall_words (lower text).

Definition word_count (text : string) : gmap string nat :=
  Counter (words text).

Definition cumulative_frequency (plavra : list string) (text : string) : nat :=
  sum_list ((fun word => count_of (word_count text) (lower word)) <$> plavra).

Definition max_cumulative_frequency (text : string) : nat :=
  length (words text).

(** A count as a Python float. *)
Definition to_float (n : nat) : float :=
  PrimFloat.of_uint63 (Uint63.of_Z (Z.of_nat n)).

(** [a / b] on two counts: a float, or [ZeroDivisionError]. *)
Definition truediv (a b : nat) : result float :=
  if Nat.eqb b 0 then Raise ZeroDivisionError
  else Ok (to_float a / to_float b)%float.

(** The [else 0] of the source is the integer 0, which Python compares and
    rounds as the float 0. *)
Definition normalized_rating (plavra : list string) (text : string) : result float :=
  if negb (Nat.eqb (max_cumulative_frequency text) 0)
  then truediv (cumulative_frequency plavra text) (max_cumulative_frequency text)
  else Ok 0%float.

Definition rate_text (plavra : list string) (text : string) : result float :=
  normalized_rating <-! normalized_rating plavra text;
  let scaled_rating := (normalized_rating * 5)%float in
  Ok scaled_rating.

End Docsim.

(** ** main.py *)

Module Main.
Import Docsim.

(** *** Rating *)

(** [n / d] rounded to the nearest integer, ties to the even one
    ([0 <= n], [0 < d]). *)
Definition round_half_even (n d : Z) : Z :=
  let q := (n / d)%Z in
  match (2 * (n mod d) ?= d)%Z with
  | Lt => q
  | Gt => (q + 1)%Z
  | Eq => if Z.even q then q else (q + 1)%Z
  end.

(** The builtin [round(x)] on a float: exact on the value of [x]; it
    raises on an infinity or a NaN. *)
Definition round (x : float) : result Z :=
  match Prim2SF x with
  | S754_zero _ => Ok 0%Z
  | S754_finite s m e =>
      let mag :=
        if (0 <=? e)%Z then (Z.pos m * 2 ^ e)%Z
        else round_half_even (Z.pos m) (2 ^ (- e)) in
      Ok (if s then (- mag)%Z else mag)
  | S754_infinity _ => Raise OverflowError
  | S754_nan => Raise ValueError
  end.

Definition rate_job (job_description : string) (plavras : list string) : result Z :=
  let rating := 0%Z in
  match plavras with
  | [] => Ok rating
  | _ =>
      rating <-! rate_text plavras job_description;
      round rating
  end.

(** *** Time filter *)

(** [TPeriod] is bound by one of four branches only; reading it unbound
    raises. *)
Definition create_time_param (time : string) : result string :=
  let TPeriod : option string :=
    if String.eqb time "past 24 hours" then Some "&f_TPR=r86400"
    else if String.eqb time "past week" then Some "&f_TPR=r604800"
    else if String.eqb time "past month" then Some "&f_TPR=r2592000"
    else if String.eqb time "any time" then Some ""
    else None in
  match TPeriod with
  | Some v => Ok v
  | None => Raise UnboundLocalError
  end.

(** *** Parsed HTML *)

(** A [bs4] element: its [.text] and its attributes. *)
Record tag : Type := { text : string; attrs : gmap string string }.

(** [s.strip()] *)
Fixpoint lstrip (l : list ascii) : list ascii :=
  match l with
  | c :: l' => if Char.is_space c then lstrip l' else l
  | [] => []
  end.

Definition strip (s : string) : string :=
  string_of_list_ascii
    (rev (lstrip (rev (lstrip (list_ascii_of_string s))))).

(** [card.find(...)] answers an element or [None]; [.text] on [None]
    raises [AttributeError], [[key]] on [None] raises [TypeError] and on an
    element without that attribute [KeyError]. *)
Definition text_of (found : option tag) : result string :=
  match found with
  | Some el => Ok (text el)
  | None => Raise AttributeError
  end.

Definition getitem (found : option tag) (key : string) : result string :=
  match found with
  | Some el =>
      match attrs el !! key with
      | Some v => Ok v
      | None => Raise KeyError
      end
  | None => Raise TypeError
  end.

(** [d[key]] on a dict. *)
Definition dict_get (d : gmap string string) (key : string) : result string :=
  match d !! key with
  | Some v => Ok v
  | None => Raise KeyError
  end.

(** [try: x = r  except: x = d] *)
Definition try_default {A} (r : result A) (d : A) : A :=
  match r with
  | Ok a => a
  | Raise _ => d
  end.

(** A job card ([li]) with what [card.find] answers for each selector
    [get_job_info] uses. *)
Record card : Type := {
  h3_title : option tag;       (* find("h3", class_="base-search-card__title") *)
  a : option tag;              (* find("a") *)
  span_location : option tag;  (* find("span", class_='job-search-card__location') *)
  h4_subtitle : option tag;    (* find("h4", class_="base-search-card__subtitle") *)
  time : option tag            (* find("time") *)
}.

(** A parsed document with what [soup.find] and [soup.find_all] answer for
    the selectors of [get_job_cards] and [extractDescription]. *)
Record soup : Type := {
  results_list : option (list card);  (* the [li]s of ul.jobs-search__results-list *)
  all_li : list card;                 (* find_all('li') *)
  description_markup : option tag     (* find("div", class_="show-more-less-html__markup") *)
}.

(** [BeautifulSoup(requests.get(url).text, "html.parser")], or the
    exception [requests.get] raises. *)
Definition web : Type := string -> result soup.

(** *** The pipeline *)

Record job : Type := {
  jobTitle : string;
  companyName : string;
  dayPosted : option string;   (* [None] is the source's [False] *)
  jobURL : string;
  rating : Z;
  location : string;
  jobDesc : string
}.

Definition extractDescription (w : web) (url : string) : gmap string string :=
  let result : gmap string string := ∅ in
  match w url with
  | Ok page =>
      let description :=
        match description_markup page with
        | Some descriptionDiv => strip (text descriptionDiv)
        | None => "no description specified"
        end in
      <["description" := description]> result
  | Raise _ => result
  end.

Definition get_job_info (w : web) (c : card) (plavras : list string) : result job :=
  jobTitle <-! (t <-! text_of (h3_title c); Ok (strip t));
  jobURL <-! getitem (a c) "href";
  let location :=
    try_default (t <-! text_of (span_location c); Ok (strip t))
                "location not given" in
  let jobDesc := extractDescription w jobURL in
  let companyName :=
    try_default (t <-! text_of (h4_subtitle c); Ok (strip t))
                "Not specified" in
  let dayPosted :=
    try_default (t <-! text_of (time c); Ok (Some (strip t))) None in
  description <-! dict_get jobDesc "description";
  rating <-! rate_job description plavras;
  Ok {| jobTitle := jobTitle; companyName := companyName;
        dayPosted := dayPosted; jobURL := jobURL; rating := rating;
        location := location; jobDesc := description |}.

Definition get_job_cards (w : web) (url : string) : result (list card) :=
  page <-! w url;
  Ok (match results_list page with
      | Some cards => cards
      | None => all_li page
      end).

(** [list(executor.map(f, xs))] once the pool has shut down: every task has
    run, the results come in the order of [xs], and the first task that
    raised makes the iteration raise. *)
Fixpoint executor_map {A B} (f : A -> result B) (xs : list A) : result (list B) :=
  match xs with
  | [] => Ok []
  | x :: xs' =>
      y <-! f x;
      ys <-! executor_map f xs';
      Ok (y :: ys)
  end.

(** The locals of [extractJobs] that outlive its [try] block. *)
Record locals : Type := {
  results : list job;
  total_cards : option nat     (* [None]: not bound yet *)
}.

(** How a block ends. *)
Inductive completion : Type :=
  | Normal (l : locals)
  | Return (v : list job * nat)
  | Except (e : exn) (l : locals).

(** The body of the [try] of [extractJobs]. *)
Definition extractJobs_try (w : web) (urls plavras : list string) (l : locals)
  : completion :=
  match executor_map (get_job_cards w) urls with
  | Raise e => Except e l
  | Ok cards =>
      let cards := concat cards in
      let l := {| results := results l; total_cards := Some (length cards) |} in
      if Nat.eqb (length cards) 0 then Return (results l, 0)
      else
        match executor_map (fun card => get_job_info w card plavras) cards with
        | Raise e => Except e l
        | Ok job_data_list =>
            Normal {| results := foldl (fun rs job => rs ++ [job])
                                       (results l) job_data_list;
                      total_cards := total_cards l |}
        end
  end.

Definition extractJobs (w : web) (urls plavras : list string)
  : result (list job * nat) :=
  let l := {| results := []; total_cards := None |} in
  match extractJobs_try w urls plavras l with
  | Return v => Ok v
  | Normal l | Except _ l =>    (* [except: ...] swallows the exception *)
      match total_cards l with
      | Some n => Ok (results l, n)
      | None => Raise UnboundLocalError
      end
  end.

End Main.

Import Docsim Main.

(** ** Vocabulary of the specification *)

Module Spec.



(** The float that is 5 times the share [cf / mcf] of keyword hits among
    the tokens, computed as the source does; 0 for a text without tokens. *)
Definition scaled (cf mcf : nat) : float :=
  if Nat.eqb mcf 0 then 0%float
  else (Docsim.to_float cf / Docsim.to_float mcf * 5)%float.

(** Word characters only. *)
Definition word_chars (l : list ascii) : Prop :=
  Forall (fun c => Char.is_word c = true) l.

(** A card lacks a required field: the title element, the link, or the
    [href] of the link. *)
Definition missing_required (c : Main.card) : bool :=
  match Main.h3_title c, Main.a c with
  | Some _, Some el =>
      match Main.attrs el !! "href" with
      | Some _ => false
      | None => true
      end
  | _, _ => true
  end.

(** Python's [a == b] on floats. *)
Definition float_eq (x y : float) : bool := PrimFloat.eqb x y.

(** Python's [a <= b] on floats. *)
Definition float_le (x y : float) : bool := PrimFloat.leb x y.

End Spec.

(** ** Concrete pages used by the examples *)

Module Examples.
Import Main.

Definition el (t : string) : tag := {| text := t; attrs := ∅ |}.

Definition link (href : string) : tag :=
  {| text := ""; attrs := {[ "href" := href ]} |}.

(** A fully populated card. *)
Definition card_full : card :=
  {| h3_title := Some (el " Python Developer ");
     a := Some (link "https://jobs.example/1");
     span_location := Some (el "Recife, Brazil");
     h4_subtitle := Some (el "Acme");
     time := Some (el "2 days ago") |}.

(** A card without the company element. *)
Definition card_no_company : card :=
  {| h3_title := Some (el "Data Engineer");
     a := Some (link "https://jobs.example/2");
     span_location := Some (el "Brazil");
     h4_subtitle := None;
     time := Some (el "1 week ago") |}.

(** A card without the title element. *)
Definition card_no_title : card :=
  {| h3_title := None;
     a := Some (link "https://jobs.example/2");
     span_location := Some (el "Brazil");
     h4_subtitle := Some (el "Initech");
     time := None |}.

(** A card whose link has no [href]. *)
Definition card_no_href : card :=
  {| h3_title := Some (el "Data Engineer");
     a := Some (el "Data Engineer");
     span_location := None;
     h4_subtitle := None;
     time := None |}.

Definition listing (cards : list card) : soup :=
  {| results_list := Some cards; all_li := cards; description_markup := None |}.

Definition posting (description : option string) : soup :=
  {| results_list := None; all_li := [];
     description_markup := el <$> description |}.

Definition search_url : string :=
  "https://www.linkedin.com/jobs/search?keywords=python&location=Brazil&position=1&pageNum=0".

(** One listing page at [search_url] and two postings, the second one
    without a description element. *)
Definition site (cards : list card) : web := fun url =>
  if String.eqb url search_url then Ok (listing cards)
  else if String.eqb url "https://jobs.example/1"
    then Ok (posting (Some "I love python and more python"))
  else if String.eqb url "https://jobs.example/2"
    then Ok (posting None)
  else Raise ConnectionError.

(** No host can be reached. *)
Definition offline : web := fun _ => Raise ConnectionError.

Definition job_full : job :=
  {| jobTitle := "Python Developer"; companyName := "Acme";
     dayPosted := Some "2 days ago"; jobURL := "https://jobs.example/1";
     rating := 2; location := "Recife, Brazil";
     jobDesc := "I love python and more python" |}.

Definition job_no_company : job :=
  {| jobTitle := "Data Engineer"; companyName := "Not specified";
     dayPosted := Some "1 week ago"; jobURL := "https://jobs.example/2";
     rating := 0; location := "Brazil";
     jobDesc := "no description specified" |}.

End Examples.

Import Spec Examples.

(** ** main.py: the entry point *)

Module Entry.
Import Main.

Record JobsParams : Type := {
  titles : list string;
  plavra : list string;
  time_period : string;
  location : string
}.

(** [s.replace(old, new)] for a one-character [old]. *)
Fixpoint replace (old : ascii) (new : string) (s : string) : string :=
  match s with
  | EmptyString => EmptyString
  | String c s' =>
      if Ascii.eqb c old then new ++ replace old new s'
      else String c (replace old new s')
  end.

(** [s.replace(" ", "%20").replace(",", "%2C")] *)
Definition percent_encode (s : string) : string :=
  replace "," "%2C" (replace " " "%20" s).

(** The f-string of the search URL. *)
Definition format_url (keywords location time_period : string) : string :=
  "https://www.linkedin.com/jobs/search?keywords=" ++ keywords
  ++ "&location=" ++ location ++ time_period ++ "&position=1&pageNum=0".

(** The loop that fills [urls], one URL per title. *)
Definition build_urls (titles : list string) (location time_period : string)
  : list string :=
  foldl (fun urls url =>
           let keywords := percent_encode url in
           urls ++ [format_url keywords location time_period])
        [] titles.

Definition main (w : web) (user_params : JobsParams) : result (list job * nat) :=
  let titles := titles user_params in
  let plavra := plavra user_params in
  let time_period := time_period user_params in
  let location := location user_params in
  time_period <-! create_time_param time_period;
  let location := percent_encode location in
  let urls := build_urls titles location time_period in
  extractJobs w urls plavra.

End Entry.

(** ** docsim2.py *)

Module Docsim2.
Import Docsim.

(** What the function can raise: [ValueError] from [fit_transform] on an
    empty vocabulary, [IndexError] from [desc_tf[0, i]] on a column that
    does not exist. *)
Inductive error : Set := ValueError | IndexError.

Inductive outcome (A : Type) : Type :=
  | Done (x : A)
  | Failed (e : error).
Arguments Done {A} x.
Arguments Failed {A} e.

(** The default analyzer of [CountVectorizer()]: lower-case the document
    and take [re.findall(r"(?u)\b\w\w+\b", doc)], the maximal runs of two or
    more word characters. *)
Definition analyze (doc : string) : list string :=
  List.filter (fun w => Nat.leb 2 (String.length w)) (findall_words (lower doc)).

(** The order of [sorted] on ASCII strings. *)
Definition string_le (s t : string) : Prop := String.leb s t = true.

#[global] Instance string_le_dec : RelDecision string_le.
Proof. intros s t. unfold string_le. apply _. Defined.

(** [get_feature_names_out()] after [fit_transform(docs)]: the distinct
    tokens of all documents, sorted. *)
Definition vocabulary (docs : list string) : list string :=
  merge_sort string_le (remove_dups (concat (analyze <$> docs))).

(** [desc_tf[0, i]]: how often feature [i] occurs in the text, the last
    document. *)
Definition desc_tf (features : list string) (text : string) (i : nat)
  : outcome nat :=
  match features !! i with
  | Some term => Done (count_occ string_dec (analyze text) term)
  | None => Failed IndexError
  end.

(** [for i, word in enumerate(plavra): rating += desc_tf[0, i]], from
    index [i] on. *)
Fixpoint rating_loop (features : list string) (text : string)
    (i : nat) (plavra : list string) (rating : nat) : outcome nat :=
  match plavra with
  | [] => Done rating
  | word :: plavra' =>
      match desc_tf features text i with
      | Done score => rating_loop features text (S i) plavra' (rating + score)
      | Failed e => Failed e
      end
  end.

(** [sum(desc_tf[0, i] for i in range(len(features)))] *)
Definition total_frequency (features : list string) (text : string) : nat :=
  sum_list ((fun term => count_occ string_dec (analyze text) term) <$> features).

Definition rate_text (plavra : list string) (text : string) : outcome float :=
  let features := vocabulary (plavra ++ [text]) in
  match features with
  | [] => Failed ValueError
  | _ =>
      match rating_loop features text 0 plavra 0 with
      | Failed e => Failed e
      | Done rating =>
          let total_frequency := total_frequency features text in
          let normalized_rating :=
            if negb (Nat.eqb total_frequency 0)
            then (to_float rating / to_float total_frequency)%float
            else 0%float in
          let scaled_rating := (normalized_rating * 5)%float in
          Done scaled_rating
      end
  end.

End Docsim2.

(** ** More vocabulary *)

Module Spec2.

(** Neither a space nor a comma occurs in [s]. *)
Fixpoint no_space_comma (s : string) : bool :=
  match s with
  | EmptyString => true
  | String c s' =>
      negb (Ascii.eqb c " ") && negb (Ascii.eqb c ",") && no_space_comma s'
  end.

(** The four time periods [create_time_param] knows. *)
Definition time_periods : list string :=
  ["past 24 hours"; "past week"; "past month"; "any time"].

(** The cards [get_job_cards] takes from a fetched page. *)
Definition cards_of (page : Main.soup) : list Main.card :=
  match Main.results_list page with
  | Some cards => cards
  | None => Main.all_li page
  end.

(** The tokens of the text that stands for a missing description. *)
Definition sentinel_words : list string := ["no"; "description"; "specified"].

(** A string that can be a token: not empty, word characters only. *)
Definition token_like (s : string) : bool :=
  match s with
  | EmptyString => false
  | _ => forallb Char.is_word (list_ascii_of_string s)
  end.


End Spec2.

Import Spec2.

(** A card whose posting is at a URL that cannot be fetched from [site]. *)
Definition card_unreachable : Main.card :=
  {| Main.h3_title := Some (el "Go Developer");
     Main.a := Some (link "https://jobs.example/3");
     Main.span_location := None;
     Main.h4_subtitle := None;
     Main.time := None |}.

(** * Properties of the scorer *)

Section counter_facts.
Implicit Types (m : gmap string nat) (ws : list string) (k w : string).

Lemma count_of_increment m w k :
  count_of (<[w := S (default 0 (m !! w))]> m) k
  = if decide (w = k) then S (count_of m k) else count_of m k.
Proof.
  unfold count_of. destruct (decide (w = k)) as [->|Hne].
  - by rewrite lookup_insert_eq.
  - by rewrite lookup_insert_ne.
Qed.

Lemma count_of_foldl ws m k :
  count_of (foldl (fun m w => <[w := S (default 0 (m !! w))]> m) m ws) k
  = count_of m k + count_occ string_dec ws k.
Proof.
  revert m. induction ws as [|w ws IH]; intros m; simpl.
  - lia.
  - rewrite IH, count_of_increment.
    destruct (decide (w = k)) as [->|Hne]; destruct (string_dec _ _);
      try congruence; lia.
Qed.

(** A [Counter] answers, for every key, the number of its occurrences. *)
Lemma count_of_Counter ws k :
  count_of (Counter ws) k = count_occ string_dec ws k.
Proof.
  unfold Counter. rewrite count_of_foldl. unfold count_of.
  by rewrite lookup_empty.
Qed.

Lemma count_of_absent ws k : k ∉ ws -> count_of (Counter ws) k = 0.
Proof.
  intros Hk. rewrite count_of_Counter. apply count_occ_not_In.
  by rewrite <- list_elem_of_In.
Qed.

End counter_facts.

(** ** The tokenizer *)

Lemma finished_run_is_word (c : ascii) (run : list ascii) :
  word_chars (c :: run) ->
  string_of_list_ascii (rev (c :: run)) <> ""
  /\ word_chars (list_ascii_of_string (string_of_list_ascii (rev (c :: run)))).
Proof.
  intros Hrun. split.
  - intros Heq. apply (f_equal list_ascii_of_string) in Heq.
    rewrite list_ascii_of_string_of_list_ascii in Heq.
    apply (f_equal (@length ascii)) in Heq.
    rewrite length_rev in Heq. discriminate.
  - rewrite list_ascii_of_string_of_list_ascii. by apply Forall_rev.
Qed.

(** Every token is a non-empty run of word characters. *)
Lemma scan_tokens (s : string) (run : list ascii) (w : string) :
  word_chars run ->
  w ∈ scan run s ->
  w <> "" /\ word_chars (list_ascii_of_string w).
Proof.
  revert run. induction s as [|c s IH]; intros run Hrun; simpl.
  - destruct run as [|d run]; [by intros ?%elem_of_nil|].
    intros ->%list_elem_of_singleton. by apply finished_run_is_word.
  - destruct (Char.is_word c) eqn:Hc.
    + apply IH. by constructor.
    + destruct run as [|d run]; [apply IH; constructor|].
      intros [->|Hw]%elem_of_cons.
      * by apply finished_run_is_word.
      * revert Hw. apply IH. constructor.
Qed.

Lemma words_tokens (text w : string) :
  w ∈ words text -> w <> "" /\ word_chars (list_ascii_of_string w).
Proof. apply scan_tokens. constructor. Qed.

(** A text made of word characters only is one token. *)
Lemma scan_word (s : string) (run : list ascii) :
  word_chars (list_ascii_of_string s) ->
  scan run s
  = match run ++ list_ascii_of_string s with
    | [] => []
    | _ => [string_of_list_ascii (rev run ++ list_ascii_of_string s)]
    end.
Proof.
  revert run. induction s as [|c s IH]; intros run Hs; simpl.
  - rewrite !app_nil_r. reflexivity.
  - inversion Hs as [|? ? Hc Hs']; subst. rewrite Hc, (IH _ Hs'). simpl.
    rewrite <- app_assoc. simpl. by destruct run.
Qed.

Lemma cumulative_frequency_cons kw plavra text :
  cumulative_frequency (kw :: plavra) text
  = count_of (word_count text) (lower kw) + cumulative_frequency plavra text.
Proof. reflexivity. Qed.

Lemma cumulative_frequency_app p1 p2 text :
  cumulative_frequency (p1 ++ p2) text
  = cumulative_frequency p1 text + cumulative_frequency p2 text.
Proof.
  unfold cumulative_frequency. by rewrite fmap_app, sum_list_with_app.
Qed.

Lemma cumulative_frequency_replicate k kw text :
  cumulative_frequency (replicate k kw) text
  = k * count_of (word_count text) (lower kw).
Proof.
  unfold cumulative_frequency. by rewrite fmap_replicate, sum_list_replicate.
Qed.

(** [rate_text] never raises: it answers the scaled share of the hits. *)
Lemma rate_text_Ok plavra text :
  rate_text plavra text
  = Ok (scaled (cumulative_frequency plavra text) (max_cumulative_frequency text)).
Proof.
  unfold rate_text, normalized_rating, truediv, scaled.
  destruct (Nat.eqb (max_cumulative_frequency text) 0); reflexivity.
Qed.

(** ** Upper bound *)

Lemma sum_list_plus {A} (f g : A -> nat) (l : list A) :
  sum_list ((fun x => f x + g x) <$> l) = sum_list (f <$> l) + sum_list (g <$> l).
Proof.
  induction l as [|x l IH]; [done|].
  rewrite !fmap_cons. cbn [sum_list_with id]. lia.
Qed.

Lemma sum_list_zero {A} (f : A -> nat) (l : list A) :
  (forall x, x ∈ l -> f x = 0) -> sum_list (f <$> l) = 0.
Proof.
  induction l as [|x l IH]; intros Hf; [done|].
  rewrite fmap_cons. cbn [sum_list_with id].
  rewrite IH, Hf; [done | by left | intros y Hy; apply Hf; by right].
Qed.

Lemma sum_list_indicator (w : string) (ks : list string) :
  NoDup ks ->
  sum_list ((fun k => if string_dec w k then 1 else 0) <$> ks) <= 1.
Proof.
  induction 1 as [|k ks Hk Hks IH]; [simpl; lia|].
  rewrite fmap_cons. cbn [sum_list_with id].
  destruct (string_dec w k) as [->|Hne]; [|lia].
  rewrite sum_list_zero; [lia|].
  intros y Hy. destruct (string_dec k y) as [->|]; done.
Qed.

Lemma sum_count_occ_le (ws ks : list string) :
  NoDup ks ->
  sum_list (count_occ string_dec ws <$> ks) <= length ws.
Proof.
  intros Hks. induction ws as [|w ws IH]; simpl.
  - rewrite sum_list_zero; done.
  - transitivity
      (sum_list ((fun k => (if string_dec w k then 1 else 0)
                           + count_occ string_dec ws k) <$> ks)).
    + apply Nat.eq_le_incl. f_equal. apply list_fmap_ext.
      intros i k _. by destruct (string_dec w k).
    + rewrite sum_list_plus. pose proof (sum_list_indicator w ks Hks). lia.
Qed.

(** With keywords that differ after lower-casing, the hits are at most the
    tokens. *)
Lemma cumulative_frequency_le plavra text :
  NoDup (lower <$> plavra) ->
  cumulative_frequency plavra text <= max_cumulative_frequency text.
Proof.
  intros Hnd. unfold cumulative_frequency, max_cumulative_frequency.
  etransitivity; [|apply (sum_count_occ_le (words text) _ Hnd)].
  apply Nat.eq_le_incl. rewrite <- list_fmap_compose. f_equal.
  apply list_fmap_ext. intros i kw _. simpl. apply count_of_Counter.
Qed.

(** C1 (fails on the code): the score is within [0, 5] for every keyword list
    and text. A keyword listed twice, here once capitalised, is counted
    twice: one token, two hits, score 10. *)
Theorem rate_text_exceeds_5 :
  rate_text ["python"; "Python"] "python" = Ok 10%float
  /\ cumulative_frequency ["python"; "Python"] "python" = 2
  /\ max_cumulative_frequency "python" = 1
  /\ float_le 10 5 = false.
Proof. repeat split; vm_compute; reflexivity. Qed.

(** ** Whole tokens *)

(** C7: a keyword counts only where it is a whole token. A keyword that is
    no token of the lower-cased text has count 0 and adds nothing to the
    score of any keyword list, however often it occurs inside longer tokens;
    "cat" occurs inside "concatenate" and scores 0 there. *)
Theorem rate_text_whole_tokens :
  (forall (kw : string) (plavra : list string) (text : string),
      lower kw ∉ words text ->
      count_of (word_count text) (lower kw) = 0
      /\ cumulative_frequency [kw] text = 0
      /\ rate_text (kw :: plavra) text = rate_text plavra text
      /\ rate_text (plavra ++ [kw]) text = rate_text plavra text)
  /\ (String.index 0 "cat" "concatenate" = Some 3
      /\ words "concatenate" = ["concatenate"]
      /\ rate_text ["cat"] "concatenate" = Ok 0%float).
Proof.
  split; [|by vm_compute].
  intros kw plavra text Hkw.
  assert (H0 : count_of (word_count text) (lower kw) = 0)
    by (by apply count_of_absent).
  repeat split.
  - done.
  - rewrite cumulative_frequency_cons, H0. reflexivity.
  - by rewrite !rate_text_Ok, cumulative_frequency_cons, H0.
  - rewrite !rate_text_Ok, cumulative_frequency_app, cumulative_frequency_cons, H0.
    do 2 f_equal. unfold cumulative_frequency at 2. simpl. lia.
Qed.

Lemma rate_text_whole_tokens_witness :
  (lower "cat" ∉ words "the concatenate cats")
  /\ rate_text ["cat"; "the"] "the concatenate cats" = rate_text ["the"] "the concatenate cats".
Proof.
  assert (H : lower "cat" ∉ words "the concatenate cats").
  { vm_compute. intros H. repeat (apply elem_of_cons in H as [H|H]; [discriminate|]).
    by apply elem_of_nil in H. }
  split; [exact H|].
  exact (proj1 (proj2 (proj2 (proj1 rate_text_whole_tokens "cat" ["the"] _ H)))).
Defined.

(** ** Letter case *)







(** ** Texts without tokens *)

(** C9: when the text has no token, the division is not evaluated and the
    score is 0, for every keyword list; the empty text is such a text. With
    that guard the division never has a zero divisor: [rate_text] raises on
    no input. *)
Theorem rate_text_no_tokens :
  (forall (plavra : list string) (text : string),
      words text = [] ->
      normalized_rating plavra text = Ok 0%float
      /\ rate_text plavra text = Ok 0%float)
  /\ (forall plavra : list string, rate_text plavra "" = Ok 0%float)
  /\ (forall (plavra : list string) (text : string),
        exists x, rate_text plavra text = Ok x).
Proof.
  assert (H : forall plavra text, words text = [] ->
                normalized_rating plavra text = Ok 0%float
                /\ rate_text plavra text = Ok 0%float).
  { intros plavra text Hw.
    unfold rate_text, normalized_rating, max_cumulative_frequency.
    rewrite Hw. by split. }
  split; [exact H|]. split.
  - intros plavra. by apply H.
  - intros plavra text. rewrite rate_text_Ok. eauto.
Qed.

Lemma rate_text_no_tokens_witness :
  words " ... -- !" = [] /\ rate_text ["python"] " ... -- !" = Ok 0%float.
Proof.
  split; [reflexivity|].
  apply (proj1 rate_text_no_tokens ["python"] " ... -- !"). reflexivity.
Defined.

(** The guard is what keeps the division defined. *)
Lemma truediv_zero (a : nat) : truediv a 0 = Raise ZeroDivisionError.
Proof. reflexivity. Qed.

(** ** Keyword lists put together *)

#[local] Set Warnings "-inexact-float".

(** C10 (fails on the code): the score of [p1 ++ p2] is the sum of the scores
    of [p1] and of [p2]. On six tokens with two hits for "a" and three for
    "b" the joint score is the float nearest to 25/6 from above, the sum of
    the two scores the one below it. *)
Lemma rate_text_not_additive :
  rate_text (["a"] ++ ["b"]) "a a b b b c" = Ok 4.166666666666667%float
  /\ rate_text ["a"] "a a b b b c" = Ok 1.6666666666666665%float
  /\ rate_text ["b"] "a a b b b c" = Ok 2.5%float
  /\ (1.6666666666666665 + 2.5 = 4.166666666666666)%float
  /\ float_eq 4.166666666666667 (1.6666666666666665 + 2.5) = false.
Proof. repeat split; vm_compute; reflexivity. Qed.

(** C10 (amended): the hits are additive in the keyword list, and the score
    of [p1 ++ p2] is the scaled share of the added hits; a keyword listed [k]
    times contributes [k] times its count. *)
Theorem cumulative_frequency_additive (p1 p2 : list string) (text : string) :
  cumulative_frequency (p1 ++ p2) text
  = cumulative_frequency p1 text + cumulative_frequency p2 text
  /\ rate_text (p1 ++ p2) text
     = Ok (scaled (cumulative_frequency p1 text + cumulative_frequency p2 text)
                  (max_cumulative_frequency text))
  /\ (forall (k : nat) (kw : string),
        cumulative_frequency (replicate k kw) text
        = k * count_of (word_count text) (lower kw)).
Proof.
  repeat split.
  - apply cumulative_frequency_app.
  - by rewrite rate_text_Ok, cumulative_frequency_app.
  - intros k kw. apply cumulative_frequency_replicate.
Qed.

(** * Properties of the pipeline *)

(** ** Rating a job *)

(** C5: [rate_job] answers [round(5 * 2/6) = 2] for the description with two
    "python" among six tokens, and 0 for "no description specified". *)
Theorem rate_job_examples :
  rate_job "I love python and more python" ["python"] = Ok 2%Z
  /\ cumulative_frequency ["python"] "I love python and more python" = 2
  /\ max_cumulative_frequency "I love python and more python" = 6
  /\ rate_text ["python"] "I love python and more python" = Ok (2 / 6 * 5)%float
  /\ round (2 / 6 * 5) = Ok 2%Z
  /\ round (5 * 2 / 6) = Ok 2%Z
  /\ rate_job "no description specified" ["python"] = Ok 0%Z.
Proof. repeat split; vm_compute; reflexivity. Qed.

(** Without keywords the scorer is not called. *)
Lemma rate_job_no_keywords (job_description : string) :
  rate_job job_description [] = Ok 0%Z.
Proof. reflexivity. Qed.

(** ** Time filter *)

(** C6 (fails on the code): the four literals map to their parameters, and
    any other value gives an empty filter. The literals do; another value
    leaves [TPeriod] unbound and the function raises. *)
Theorem create_time_param_cases :
  create_time_param "past 24 hours" = Ok "&f_TPR=r86400"
  /\ create_time_param "past week" = Ok "&f_TPR=r604800"
  /\ create_time_param "past month" = Ok "&f_TPR=r2592000"
  /\ create_time_param "any time" = Ok ""
  /\ create_time_param "past year" = Raise UnboundLocalError
  /\ create_time_param "Past Week" = Raise UnboundLocalError
  /\ create_time_param "" = Raise UnboundLocalError.
Proof. repeat split. Qed.

Lemma create_time_param_unrecognized (time : string) :
  time ∉ ["past 24 hours"; "past week"; "past month"; "any time"] ->
  create_time_param time = Raise UnboundLocalError.
Proof.
  intros H. unfold create_time_param.
  repeat match goal with
  | |- context [String.eqb time ?s] =>
      destruct (String.eqb_spec time s) as [->|_]; [exfalso; apply H; set_solver|]
  end.
  reflexivity.
Qed.

(** ** The orchestrator *)

Section executor_map_facts.
Context {A B : Type} (f : A -> result B).

Lemma executor_map_Forall2 (xs : list A) (ys : list B) :
  executor_map f xs = Ok ys <-> Forall2 (fun x y => f x = Ok y) xs ys.
Proof.
  revert ys. induction xs as [|x xs IH]; intros ys; simpl.
  - split; [intros [= <-]; constructor | by inversion 1].
  - destruct (f x) as [y|e] eqn:Hx; simpl.
    + destruct (executor_map f xs) as [ys'|e] eqn:Hxs; simpl.
      * split.
        -- intros [= <-]. constructor; [done | by apply IH].
        -- inversion 1 as [|? y' ? ys'' Hy Hys]; subst.
           apply IH in Hys. congruence.
      * split; [done|]. inversion 1 as [|? y' ? ys'' Hy Hys]; subst.
        apply IH in Hys. done.
    + split; [done|]. inversion 1; congruence.
Qed.

Lemma executor_map_length (xs : list A) (ys : list B) :
  executor_map f xs = Ok ys -> length ys = length xs.
Proof.
  intros H%executor_map_Forall2. symmetry. by eapply Forall2_length.
Qed.

(** One task that raises makes the whole iteration raise. *)
Lemma executor_map_Exists (xs : list A) :
  Exists (fun x => exists e, f x = Raise e) xs ->
  exists e, executor_map f xs = Raise e.
Proof.
  induction 1 as [x xs [e He]|x xs _ [e IH]]; simpl.
  - rewrite He. eauto.
  - rewrite IH. destruct (f x); simpl; eauto.
Qed.

End executor_map_facts.

Lemma append_loop (rs js : list job) :
  foldl (fun rs job => rs ++ [job]) rs js = rs ++ js.
Proof.
  revert rs. induction js as [|j js IH]; intros rs; simpl.
  - by rewrite app_nil_r.
  - by rewrite IH, <- app_assoc.
Qed.

(** What [extractJobs] answers once every listing page was fetched: all the
    records or none, with the number of cards. *)
Lemma extractJobs_fetched (w : web) (urls plavras : list string) (pages : list (list card)) :
  executor_map (get_job_cards w) urls = Ok pages ->
  extractJobs w urls plavras
  = Ok (match executor_map (fun c => get_job_info w c plavras) (concat pages) with
        | Ok jobs => jobs
        | Raise _ => []
        end, length (concat pages)).
Proof.
  intros Hp. unfold extractJobs, extractJobs_try. rewrite Hp. simpl.
  destruct (concat pages) as [|c cards] eqn:Hc; [reflexivity|].
  change (Nat.eqb (length (c :: cards)) 0) with false. cbv iota.
  destruct (executor_map _ (c :: cards)) as [jobs|e]; simpl; [|reflexivity].
  by rewrite append_loop.
Qed.

(** A failed listing fetch leaves [total_cards] unbound. *)
Lemma extractJobs_not_fetched (w : web) (urls plavras : list string) (e : exn) :
  executor_map (get_job_cards w) urls = Raise e ->
  extractJobs w urls plavras = Raise UnboundLocalError.
Proof. intros Hp. unfold extractJobs, extractJobs_try. by rewrite Hp. Qed.

(** A card without title, without link or without [href] makes
    [get_job_info] raise. *)
Lemma get_job_info_missing_required (w : web) (c : card) (plavras : list string) :
  missing_required c = true -> exists e, get_job_info w c plavras = Raise e.
Proof.
  unfold missing_required, get_job_info, text_of, getitem.
  destruct (h3_title c) as [t|]; simpl; [|eauto].
  destruct (a c) as [el|]; simpl; [|eauto].
  destruct (attrs el !! "href"); simpl; [done | eauto].
Qed.

(** C2 (fails on the code): an entry whose title or URL fails to parse is
    left out and its siblings still yield records. The card without a title
    raises, and the record of the fully populated card next to it is lost
    with it: the batch of two yields no record. *)
Lemma sibling_records_lost :
  get_job_info (site [card_full; card_no_title]) card_full ["python"] = Ok job_full
  /\ get_job_info (site [card_full; card_no_title]) card_no_title ["python"]
     = Raise AttributeError
  /\ extractJobs (site [card_full; card_no_title]) [search_url] ["python"]
     = Ok ([], 2)
  /\ get_job_info (site [card_no_href; card_full]) card_no_href ["python"]
     = Raise KeyError
  /\ extractJobs (site [card_no_href; card_full]) [search_url] ["python"]
     = Ok ([], 2).
Proof. repeat split; vm_compute; reflexivity. Qed.

(** C2 (amended): once the listing pages are fetched, an entry for which
    [get_job_info] raises, as it does for a missing title or URL, empties the
    records list, the count staying the number of entries; when no entry
    raises every entry yields its record, in the order of the listing. *)
Theorem extractJobs_entry_failure_empties_batch
    (w : web) (urls plavras : list string) (pages : list (list card)) :
  executor_map (get_job_cards w) urls = Ok pages ->
  (Exists (fun c => missing_required c = true) (concat pages) ->
     extractJobs w urls plavras = Ok ([], length (concat pages)))
  /\ (Exists (fun c => exists e, get_job_info w c plavras = Raise e) (concat pages) ->
        extractJobs w urls plavras = Ok ([], length (concat pages)))
  /\ (forall jobs : list job,
        Forall2 (fun c j => get_job_info w c plavras = Ok j) (concat pages) jobs ->
        extractJobs w urls plavras = Ok (jobs, length (concat pages))).
Proof.
  intros Hp. rewrite (extractJobs_fetched _ _ _ _ Hp).
  assert (Hraise :
    Exists (fun c => exists e, get_job_info w c plavras = Raise e) (concat pages) ->
    Ok (match executor_map (fun c => get_job_info w c plavras) (concat pages) with
        | Ok jobs => jobs
        | Raise _ => []
        end, length (concat pages))
    = Ok (@nil job, length (concat pages))).
  { intros Hex. apply executor_map_Exists in Hex as [e ->]. reflexivity. }
  repeat split.
  - intros Hex. apply Hraise. eapply Exists_impl; [exact Hex|].
    intros c Hc. by apply get_job_info_missing_required.
  - exact Hraise.
  - intros jobs Hall. apply executor_map_Forall2 in Hall. by rewrite Hall.
Qed.

Lemma extractJobs_entry_failure_empties_batch_witness :
  executor_map (get_job_cards (site [card_full; card_no_company; card_no_title]))
               [search_url]
  = Ok [[card_full; card_no_company; card_no_title]]
  /\ extractJobs (site [card_full; card_no_company; card_no_title])
                 [search_url] ["python"]
     = Ok ([], 3).
Proof.
  assert (H : executor_map
                (get_job_cards (site [card_full; card_no_company; card_no_title]))
                [search_url]
              = Ok [[card_full; card_no_company; card_no_title]])
    by reflexivity.
  split; [exact H|].
  apply (proj1 (extractJobs_entry_failure_empties_batch _ _ ["python"] _ H)).
  simpl. do 2 apply Exists_cons_tl. apply Exists_cons_hd. reflexivity.
Defined.

(** C3 (fails on the code): when every listing fetch raises, [extractJobs]
    swallows the failure and answers a valid pair. The exception of the fetch
    is swallowed, but [total_cards] was never bound and the final [return]
    raises. *)
Theorem extractJobs_offline_raises :
  get_job_cards offline search_url = Raise ConnectionError
  /\ extractJobs offline [search_url] ["python"] = Raise UnboundLocalError
  /\ extractJobs offline [search_url; search_url] [] = Raise UnboundLocalError.
Proof. repeat split. Qed.

(** A failure after the listing phase is swallowed as intended. *)
Lemma extractJobs_entry_failure_swallowed
    (w : web) (urls plavras : list string) (pages : list (list card)) (e : exn) :
  executor_map (get_job_cards w) urls = Ok pages ->
  executor_map (fun c => get_job_info w c plavras) (concat pages) = Raise e ->
  extractJobs w urls plavras = Ok ([], length (concat pages)).
Proof. intros Hp He. by rewrite (extractJobs_fetched _ _ _ _ Hp), He. Qed.

(** C4: whenever [extractJobs] returns a pair, the count is at least the
    number of records. *)
Theorem extractJobs_total_ge_records
    (w : web) (urls plavras : list string) (records : list job) (totalCount : nat) :
  extractJobs w urls plavras = Ok (records, totalCount) ->
  length records <= totalCount.
Proof.
  destruct (executor_map (get_job_cards w) urls) as [pages|e] eqn:Hp.
  - rewrite (extractJobs_fetched _ _ _ _ Hp).
    destruct (executor_map _ (concat pages)) as [jobs|e] eqn:Hj;
      intros [= <- <-].
    + by rewrite (executor_map_length _ _ _ Hj).
    + simpl. lia.
  - by rewrite (extractJobs_not_fetched _ _ _ _ Hp).
Qed.

(** The end-to-end example of the specification: two entries, one without
    company, ratings 2 and 0, count 2. *)
Lemma extractJobs_example :
  extractJobs (site [card_full; card_no_company]) [search_url] ["python"]
  = Ok ([job_full; job_no_company], 2).
Proof. by vm_compute. Qed.

Lemma extractJobs_total_ge_records_witness :
  extractJobs (site [card_full; card_no_company]) [search_url] ["python"]
  = Ok ([job_full; job_no_company], 2)
  /\ length [job_full; job_no_company] <= 2.
Proof.
  split; [by vm_compute|].
  apply (extractJobs_total_ge_records
           (site [card_full; card_no_company]) [search_url] ["python"]).
  by vm_compute.
Defined.

(** No listing entry: the pair is empty and the second phase is not
    entered. *)
Lemma extractJobs_no_cards (w : web) (urls plavras : list string) (pages : list (list card)) :
  executor_map (get_job_cards w) urls = Ok pages ->
  concat pages = [] ->
  extractJobs w urls plavras = Ok ([], 0).
Proof.
  intros Hp Hc. unfold extractJobs, extractJobs_try. by rewrite Hp, Hc.
Qed.


(** * Further properties of the scorer *)

(** ** What is counted *)

Lemma count_of_foldl_None (ws : list string) (m : gmap string nat) (k : string) :
  foldl (fun m w => <[w := S (default 0 (m !! w))]> m) m ws !! k = None
  <-> m !! k = None /\ k ∉ ws.
Proof.
  revert m. induction ws as [|w ws IH]; intros m; simpl.
  - split; [intros H; split; [done | by intros ?%elem_of_nil] | by intros [H _]].
  - rewrite IH, not_elem_of_cons. destruct (decide (w = k)) as [->|Hne].
    + rewrite lookup_insert_eq. split; [by intros [? _] | by intros [_ [? _]]].
    + rewrite lookup_insert_ne by done. intuition congruence.
Qed.

Lemma cumulative_frequency_count_occ (plavra : list string) (text : string) :
  cumulative_frequency plavra text
  = sum_list ((fun kw => count_occ string_dec (words text) (lower kw)) <$> plavra).
Proof.
  unfold cumulative_frequency. f_equal. apply list_fmap_ext.
  intros i kw _. apply count_of_Counter.
Qed.

(** [word_count] has a key for each token of the text and for nothing else,
    with the number of its occurrences; the hits are these numbers for the
    lower-cased keywords, added up keyword by keyword. *)
Theorem word_count_occurrences (plavra : list string) (text k : string) :
  (word_count text !! k = None <-> k ∉ words text)
  /\ (forall n, word_count text !! k = Some n ->
                0 < n /\ n = count_occ string_dec (words text) k)
  /\ cumulative_frequency plavra text
     = sum_list ((fun kw => count_occ string_dec (words text) (lower kw)) <$> plavra).
Proof.
  assert (Hnone : word_count text !! k = None <-> k ∉ words text).
  { unfold word_count, Counter. rewrite count_of_foldl_None, lookup_empty.
    tauto. }
  split; [exact Hnone|]. split; [|apply cumulative_frequency_count_occ].
  intros n Hn.
  pose proof (count_of_Counter (words text) k) as Hc.
  unfold count_of in Hc. fold (word_count text) in Hc. rewrite Hn in Hc.
  simpl in Hc. split; [|exact Hc].
  destruct (decide (k ∈ words text)) as [Hin|Hout].
  - rewrite Hc. apply count_occ_In. by apply list_elem_of_In.
  - apply Hnone in Hout. congruence.
Qed.

Lemma word_count_occurrences_witness :
  0 < 2 /\ 2 = count_occ string_dec (words "Go, go and Rust") "go".
Proof.
  apply (proj1 (proj2 (word_count_occurrences [] "Go, go and Rust" "go")) 2).
  by vm_compute.
Defined.

(** Each keyword hits at most every token, so the hits are at most the
    tokens times the keywords; keywords that differ after lower-casing hit
    at most the tokens. *)
Theorem cumulative_frequency_bounds (plavra : list string) (text : string) :
  cumulative_frequency plavra text
  <= length plavra * max_cumulative_frequency text
  /\ (NoDup (lower <$> plavra) ->
      cumulative_frequency plavra text <= max_cumulative_frequency text).
Proof.
  split; [|apply cumulative_frequency_le].
  rewrite cumulative_frequency_count_occ. unfold max_cumulative_frequency.
  induction plavra as [|kw plavra IH]; [done|].
  rewrite fmap_cons. cbn [sum_list_with id length].
  pose proof (count_occ_bound string_dec (lower kw) (words text)). lia.
Qed.

Lemma cumulative_frequency_bounds_witness :
  NoDup (lower <$> ["python"; "rust"])
  /\ cumulative_frequency ["python"; "rust"] "Python, python and Rust"
     <= max_cumulative_frequency "Python, python and Rust".
Proof.
  assert (H : NoDup (lower <$> ["python"; "rust"])).
  { apply (bool_decide_unpack _). by vm_compute. }
  split; [exact H|].
  exact (proj2 (cumulative_frequency_bounds _ "Python, python and Rust") H).
Defined.

(** ** Order of keywords and of words *)

(** The score does not depend on the order of the keywords. *)
Theorem rate_text_keyword_order (plavra plavra' : list string) (text : string) :
  plavra ≡ₚ plavra' ->
  cumulative_frequency plavra text = cumulative_frequency plavra' text
  /\ rate_text plavra text = rate_text plavra' text.
Proof.
  intros Hp.
  assert (H : cumulative_frequency plavra text = cumulative_frequency plavra' text).
  { unfold cumulative_frequency. by rewrite Hp. }
  split; [exact H|]. by rewrite !rate_text_Ok, H.
Qed.

Lemma rate_text_keyword_order_witness :
  rate_text ["go"; "rust"; "sql"] "Rust and Go, go!"
  = rate_text ["sql"; "go"; "rust"] "Rust and Go, go!".
Proof.
  apply (rate_text_keyword_order ["go"; "rust"; "sql"] ["sql"; "go"; "rust"]).
  change ["sql"; "go"; "rust"] with (["sql"] ++ ["go"; "rust"]).
  change ["go"; "rust"; "sql"] with (["go"; "rust"] ++ ["sql"]).
  apply Permutation_app_comm.
Defined.

(** The score depends on the text through its bag of tokens only: two texts
    with the same tokens in another order score the same. *)
Theorem rate_text_word_order (plavra : list string) (text text' : string) :
  words text ≡ₚ words text' ->
  cumulative_frequency plavra text = cumulative_frequency plavra text'
  /\ max_cumulative_frequency text = max_cumulative_frequency text'
  /\ rate_text plavra text = rate_text plavra text'.
Proof.
  intros Hw.
  assert (Hc : cumulative_frequency plavra text = cumulative_frequency plavra text').
  { rewrite !cumulative_frequency_count_occ. f_equal. apply list_fmap_ext.
    intros i kw _. revert Hw. generalize (words text) (words text').
    intros l l' Hl. by apply Permutation_count_occ. }
  assert (Hm : max_cumulative_frequency text = max_cumulative_frequency text').
  { unfold max_cumulative_frequency. by rewrite Hw. }
  repeat split; [exact Hc | exact Hm |]. by rewrite !rate_text_Ok, Hc, Hm.
Qed.

Lemma rate_text_word_order_witness :
  rate_text ["go"] "Rust and Go" = rate_text ["go"] "go, RUST... and".
Proof.
  apply (rate_text_word_order ["go"] "Rust and Go" "go, RUST... and").
  change (["rust"; "and"; "go"] ≡ₚ ["go"; "rust"; "and"]).
  change ["rust"; "and"; "go"] with (["rust"; "and"] ++ ["go"]).
  apply Permutation_app_comm.
Defined.

(** ** Tokens *)

Lemma is_word_lower (c : ascii) : Char.is_word (Char.lower c) = Char.is_word c.
Proof. destruct c as [[] [] [] [] [] [] [] []]; reflexivity. Qed.




Lemma list_ascii_of_lower (s : string) :
  list_ascii_of_string (lower s) = Char.lower <$> list_ascii_of_string s.
Proof. induction s as [|c s IH]; simpl; [done | by rewrite IH]. Qed.



Lemma token_like_words (text w : string) :
  w ∈ words text -> token_like w = true.
Proof.
  intros Hw. destruct (words_tokens _ _ Hw) as [Hne Hword].
  destruct w as [|c w]; [done|]. apply forallb_forall.
  intros d Hd. unfold word_chars in Hword. rewrite Forall_forall in Hword.
  by apply Hword, list_elem_of_In.
Qed.



(** A keyword that is empty or has a character outside [\w], such as a
    phrase of two words, matches no token of any text: it adds nothing to
    the score. *)
Theorem rate_text_phrase_keyword (kw : string) (plavra : list string) (text : string) :
  token_like kw = false ->
  count_of (word_count text) (lower kw) = 0
  /\ cumulative_frequency (kw :: plavra) text = cumulative_frequency plavra text
  /\ rate_text (kw :: plavra) text = rate_text plavra text.
Proof.
  intros Hkw.
  assert (Hnot : lower kw ∉ words text).
  { intros Hin. apply token_like_words in Hin as Htok.
    destruct kw as [|c kw]; [done|].
    change (forallb Char.is_word (list_ascii_of_string (lower (String c kw))) = true)
      in Htok.
    rewrite list_ascii_of_lower, forallb_forall in Htok.
    assert (forallb Char.is_word (list_ascii_of_string (String c kw)) = true);
      [|simpl in *; congruence].
    apply forallb_forall. intros d Hd. rewrite <- is_word_lower.
    apply Htok, list_elem_of_In, list_elem_of_fmap. exists d.
    split; [done | by apply list_elem_of_In]. }
  assert (H0 : count_of (word_count text) (lower kw) = 0)
    by (by apply count_of_absent).
  assert (Hc : cumulative_frequency (kw :: plavra) text
               = cumulative_frequency plavra text)
    by (rewrite cumulative_frequency_cons, H0; reflexivity).
  repeat split; [exact H0 | exact Hc |]. by rewrite !rate_text_Ok, Hc.
Qed.

Lemma rate_text_phrase_keyword_witness :
  rate_text ["machine learning"; "python"] "Machine learning with Python"
  = rate_text ["python"] "Machine learning with Python".
Proof.
  apply (rate_text_phrase_keyword "machine learning" ["python"]). reflexivity.
Defined.

(** ** Texts put together *)



(** * Further properties of the pipeline *)

(** ** The entry point *)

Lemma create_time_param_known (time : string) :
  time ∈ time_periods ->
  exists v, create_time_param time = Ok v /\ no_space_comma v = true.
Proof.
  unfold time_periods. rewrite !elem_of_cons, elem_of_nil.
  intros [->|[->|[->|[->|[]]]]]; eexists; split; reflexivity.
Qed.

Lemma create_time_param_Ok_safe (time v : string) :
  create_time_param time = Ok v -> no_space_comma v = true.
Proof.
  destruct (decide (time ∈ time_periods)) as [Hyes|Hno].
  - destruct (create_time_param_known _ Hyes) as (v' & -> & Hsafe).
    by intros [= <-].
  - by rewrite (create_time_param_unrecognized time Hno).
Qed.

(** [create_time_param] returns exactly on the four periods it knows, a
    parameter without space or comma; on every other string it raises
    [UnboundLocalError]. *)
Theorem create_time_param_domain (time : string) :
  ((exists v, create_time_param time = Ok v) <-> time ∈ time_periods)
  /\ (time ∉ time_periods -> create_time_param time = Raise UnboundLocalError)
  /\ (forall v, create_time_param time = Ok v -> no_space_comma v = true).
Proof.
  split; [|split; [apply create_time_param_unrecognized
                  | apply create_time_param_Ok_safe]].
  split.
  - intros [v Hv]. destruct (decide (time ∈ time_periods)) as [Hyes|Hno]; [done|].
    rewrite (create_time_param_unrecognized time Hno) in Hv. discriminate.
  - intros (v & Hv & _)%create_time_param_known. eauto.
Qed.

Lemma create_time_param_domain_witness :
  create_time_param "last year" = Raise UnboundLocalError.
Proof.
  apply (proj1 (proj2 (create_time_param_domain "last year"))).
  apply (bool_decide_unpack _). by vm_compute.
Defined.


Lemma replace_fixed (old : ascii) (new s : string) :
  (forall c, c ∈ list_ascii_of_string s -> c <> old) ->
  Entry.replace old new s = s.
Proof.
  induction s as [|c s IH]; simpl; intros Hs; [done|].
  destruct (Ascii.eqb_spec c old) as [->|_].
  - exfalso. by apply (Hs old); [left|].
  - f_equal. apply IH. intros d Hd. apply Hs. by right.
Qed.

Lemma no_space_comma_chars (s : string) :
  no_space_comma s = true <->
  (forall c, c ∈ list_ascii_of_string s -> c <> " "%char /\ c <> ","%char).
Proof.
  induction s as [|c s IH]; simpl.
  - split; [intros _ c Hc; by apply elem_of_nil in Hc | done].
  - rewrite !andb_true_iff, !negb_true_iff, IH, !Ascii.eqb_neq. split.
    + intros [[Hs Hc] Hrest] d [->|Hd]%elem_of_cons; [done | by apply Hrest].
    + intros H. split; [split; apply H; by left|].
      intros d Hd. apply H. by right.
Qed.

Lemma percent_encode_no_space_comma (s : string) :
  no_space_comma (Entry.percent_encode s) = true.
Proof.
  unfold Entry.percent_encode.
  induction s as [|c s IH]; [done|]. simpl.
  destruct (Ascii.eqb_spec c " ") as [->|Hs]; [exact IH|]. simpl.
  destruct (Ascii.eqb_spec c ",") as [->|Hc]; simpl; [exact IH|].
  apply Ascii.eqb_neq in Hs, Hc. by rewrite Hs, Hc, IH.
Qed.

(** The encoding removes every space and comma and changes nothing else:
    a string without them is left as it is, so encoding twice is encoding
    once. *)
Theorem percent_encode_safe (s : string) :
  no_space_comma (Entry.percent_encode s) = true
  /\ (no_space_comma s = true -> Entry.percent_encode s = s)
  /\ Entry.percent_encode (Entry.percent_encode s) = Entry.percent_encode s.
Proof.
  assert (Hid : forall s, no_space_comma s = true -> Entry.percent_encode s = s).
  { clear s. intros s Hs. rewrite no_space_comma_chars in Hs.
    unfold Entry.percent_encode.
    rewrite (replace_fixed " " _ s); [|intros c Hc; by apply Hs].
    apply replace_fixed. intros c Hc. by apply Hs. }
  split; [apply percent_encode_no_space_comma|]. split; [apply Hid|].
  apply Hid, percent_encode_no_space_comma.
Qed.

Lemma percent_encode_safe_witness :
  Entry.percent_encode "Sao%20Paulo" = "Sao%20Paulo".
Proof.
  apply (proj1 (proj2 (percent_encode_safe "Sao%20Paulo"))). reflexivity.
Defined.




(** With any other period [main] raises before anything is fetched,
    whatever the other parameters and the network are; without titles it
    answers the empty pair. *)
Theorem main_edge_cases (w : web) (ps : Entry.JobsParams) :
  (Entry.time_period ps ∉ time_periods ->
   Entry.main w ps = Raise UnboundLocalError)
  /\ (Entry.time_period ps ∈ time_periods -> Entry.titles ps = [] ->
      Entry.main w ps = Ok ([], 0)).
Proof.
  split.
  - intros Hno. unfold Entry.main.
    by rewrite (create_time_param_unrecognized _ Hno).
  - intros Hyes Ht.
    apply create_time_param_known in Hyes as (tp & Htp & _).
    unfold Entry.main. rewrite Htp, Ht. reflexivity.
Qed.

Lemma main_edge_cases_witness :
  Entry.main (site [card_full])
    {| Entry.titles := ["python"]; Entry.plavra := ["python"];
       Entry.time_period := "this week"; Entry.location := "Brazil" |}
  = Raise UnboundLocalError
  /\ Entry.main offline
       {| Entry.titles := []; Entry.plavra := ["python"];
          Entry.time_period := "any time"; Entry.location := "Brazil" |}
     = Ok ([], 0).
Proof.
  split.
  - apply (proj1 (main_edge_cases _ _)). simpl.
    apply (bool_decide_unpack _). by vm_compute.
  - apply (proj2 (main_edge_cases _ _)); simpl; [|reflexivity].
    apply (bool_decide_unpack _). by vm_compute.
Defined.

(** ** One entry *)

(** What a returned record holds. *)
Lemma get_job_info_Ok (w : web) (c : card) (plavras : list string) (j : job) :
  get_job_info w c plavras = Ok j ->
  exists t el,
    h3_title c = Some t /\ a c = Some el
    /\ jobTitle j = strip (text t)
    /\ attrs el !! "href" = Some (jobURL j)
    /\ extractDescription w (jobURL j) !! "description" = Some (jobDesc j)
    /\ rate_job (jobDesc j) plavras = Ok (rating j)
    /\ location j = try_default (t <-! text_of (span_location c); Ok (strip t))
                                "location not given"
    /\ companyName j = try_default (t <-! text_of (h4_subtitle c); Ok (strip t))
                                   "Not specified"
    /\ dayPosted j = try_default (t <-! text_of (time c); Ok (Some (strip t))) None.
Proof.
  unfold get_job_info, text_of at 1, getitem, dict_get.
  destruct (h3_title c) as [t|]; simpl; [|done].
  destruct (a c) as [el|]; simpl; [|done].
  destruct (attrs el !! "href") as [url|] eqn:Hurl; simpl; [|done].
  destruct (extractDescription w url !! "description") as [d|] eqn:Hd; simpl; [|done].
  destruct (rate_job d plavras) as [r|] eqn:Hr; simpl; [|done].
  intros [= <-]. simpl. exists t, el. by repeat split.
Qed.

(** The location, the company and the date never make an entry fail: with
    them changed or removed the entry still yields its record, with the same
    title, URL, description and rating, and with "location not given",
    "Not specified" and no date in place of what is missing. *)
Theorem get_job_info_optional_fields
    (w : web) (c : card) (plavras : list string) (j : job)
    (loc comp tm : option tag) :
  get_job_info w c plavras = Ok j ->
  get_job_info w {| h3_title := h3_title c; a := a c; span_location := loc;
                    h4_subtitle := comp; time := tm |} plavras
  = Ok {| jobTitle := jobTitle j;
          companyName := match comp with
                         | Some el => strip (text el)
                         | None => "Not specified"
                         end;
          dayPosted := match tm with
                       | Some el => Some (strip (text el))
                       | None => None
                       end;
          jobURL := jobURL j;
          rating := rating j;
          location := match loc with
                      | Some el => strip (text el)
                      | None => "location not given"
                      end;
          jobDesc := jobDesc j |}.
Proof.
  intros (t & el & Ht & Ha & Htitle & Hurl & Hd & Hr & _)%get_job_info_Ok.
  unfold get_job_info, text_of at 1, getitem, dict_get. simpl.
  rewrite Ht, Ha. simpl. rewrite Hurl. simpl. rewrite Hd. simpl.
  rewrite Hr. simpl. rewrite Htitle.
  by destruct loc, comp, tm.
Qed.

Lemma get_job_info_optional_fields_witness :
  get_job_info (site [])
    {| h3_title := h3_title card_full; a := a card_full;
       span_location := None; h4_subtitle := None; time := None |} ["python"]
  = Ok {| jobTitle := "Python Developer"; companyName := "Not specified";
          dayPosted := None; jobURL := "https://jobs.example/1"; rating := 2;
          location := "location not given";
          jobDesc := "I love python and more python" |}.
Proof.
  apply (get_job_info_optional_fields (site []) card_full ["python"] job_full
           None None None).
  by vm_compute.
Defined.

(** A posting without description element is rated on the text
    "no description specified": 0, unless a keyword is one of these three
    words. *)
Theorem rate_job_missing_description (plavras : list string) :
  Forall (fun kw => lower kw ∉ sentinel_words) plavras ->
  rate_job "no description specified" plavras = Ok 0%Z.
Proof.
  intros Hp.
  assert (Hc : cumulative_frequency plavras "no description specified" = 0).
  { unfold cumulative_frequency. apply sum_list_zero.
    intros kw Hkw. apply count_of_absent.
    rewrite Forall_forall in Hp. exact (Hp kw Hkw). }
  destruct plavras as [|kw plavras]; [reflexivity|].
  unfold rate_job. rewrite rate_text_Ok, Hc. reflexivity.
Qed.

Lemma rate_job_missing_description_witness :
  rate_job "no description specified" ["python"; "Machine Learning"] = Ok 0%Z.
Proof.
  apply rate_job_missing_description.
  apply (bool_decide_unpack _). by vm_compute.
Defined.

(** ** The batch *)

Lemma executor_map_app {A B} (f : A -> result B) (xs ys : list A) :
  executor_map f (xs ++ ys)
  = (xs' <-! executor_map f xs; ys' <-! executor_map f ys; Ok (xs' ++ ys')).
Proof.
  induction xs as [|x xs IH]; simpl.
  - by destruct (executor_map f ys).
  - destruct (f x); simpl; [|done]. rewrite IH.
    destruct (executor_map f xs); simpl; [|done].
    by destruct (executor_map f ys).
Qed.

Lemma executor_map_Raise {A B} (f : A -> result B) (xs : list A) (e : exn) :
  executor_map f xs = Raise e ->
  Exists (fun x => exists e', f x = Raise e') xs.
Proof.
  induction xs as [|x xs IH]; simpl; [done|].
  destruct (f x) as [y|e'] eqn:Hx; simpl; [|intros _; left; eauto].
  destruct (executor_map f xs) as [ys|e0]; simpl; [done|].
  intros [= ->]. right. by apply IH.
Qed.

Lemma get_job_cards_Raise (w : web) (url : string) :
  (exists e, get_job_cards w url = Raise e) <-> (exists e, w url = Raise e).
Proof.
  unfold get_job_cards. destruct (w url); simpl; split; intros [e' H];
    first [discriminate | eauto].
Qed.

(** [extractJobs] raises exactly when some search URL cannot be fetched, be
    it one among many, and what it raises is always [UnboundLocalError]. *)
Theorem extractJobs_raises_iff (w : web) (urls plavras : list string) :
  ((exists e, extractJobs w urls plavras = Raise e)
   <-> Exists (fun url => exists e, w url = Raise e) urls)
  /\ (forall e, extractJobs w urls plavras = Raise e -> e = UnboundLocalError).
Proof.
  destruct (executor_map (get_job_cards w) urls) as [pages|e'] eqn:Hp.
  - rewrite (extractJobs_fetched _ _ _ _ Hp). repeat split.
    + by intros [e He].
    + intros Hex. exfalso.
      assert (Hex' : Exists (fun url => exists e, get_job_cards w url = Raise e) urls).
      { eapply Exists_impl; [exact Hex|]. intros url. apply get_job_cards_Raise. }
      apply executor_map_Exists in Hex' as [e He]. congruence.
    + done.
  - rewrite (extractJobs_not_fetched _ _ _ _ Hp). repeat split.
    + intros _. apply executor_map_Raise in Hp.
      eapply Exists_impl; [exact Hp|]. intros url. apply get_job_cards_Raise.
    + eauto.
    + by intros e [= <-].
Qed.

Lemma extractJobs_raises_iff_witness :
  extractJobs (site [card_full]) [search_url; "https://www.linkedin.com/down"]
              ["python"]
  = Raise UnboundLocalError.
Proof.
  destruct (proj2 (proj1 (extractJobs_raises_iff (site [card_full])
              [search_url; "https://www.linkedin.com/down"] ["python"])))
    as [e He].
  - apply Exists_cons_tl, Exists_cons_hd. by exists ConnectionError.
  - rewrite He. f_equal.
    exact (proj2 (extractJobs_raises_iff _ _ _) e He).
Defined.

(** The records that come back are all or none: their number is the count
    or 0. Each holds the description found at its URL and the rating of
    that description; without keywords every rating is 0. *)
Theorem extractJobs_records
    (w : web) (urls plavras : list string) (records : list job) (totalCount : nat) :
  extractJobs w urls plavras = Ok (records, totalCount) ->
  (records = [] \/ length records = totalCount)
  /\ Forall (fun j =>
               extractDescription w (jobURL j) !! "description" = Some (jobDesc j)
               /\ rate_job (jobDesc j) plavras = Ok (rating j)) records
  /\ (plavras = [] -> Forall (fun j => rating j = 0%Z) records).
Proof.
  destruct (executor_map (get_job_cards w) urls) as [pages|e] eqn:Hp;
    [|by rewrite (extractJobs_not_fetched _ _ _ _ Hp)].
  rewrite (extractJobs_fetched _ _ _ _ Hp).
  destruct (executor_map _ (concat pages)) as [jobs|e] eqn:Hj; intros [= <- <-];
    [|split; [by left | split; [constructor | intros _; constructor]]].
  assert (Hall : Forall (fun j =>
            extractDescription w (jobURL j) !! "description" = Some (jobDesc j)
            /\ rate_job (jobDesc j) plavras = Ok (rating j)) jobs).
  { apply executor_map_Forall2 in Hj.
    induction Hj as [|c j cs js Hc _ IH]; constructor; [|exact IH].
    apply get_job_info_Ok in Hc as (t & el & _ & _ & _ & _ & Hd & Hr & _).
    by split. }
  repeat split.
  - right. by apply executor_map_length in Hj.
  - exact Hall.
  - intros ->. eapply Forall_impl; [exact Hall|].
    intros j [_ Hr]. simpl in Hr. congruence.
Qed.

Lemma extractJobs_records_witness :
  Forall (fun j => rating j = 0%Z)
         [ {| jobTitle := "Python Developer"; companyName := "Acme";
              dayPosted := Some "2 days ago"; jobURL := "https://jobs.example/1";
              rating := 0; location := "Recife, Brazil";
              jobDesc := "I love python and more python" |} ].
Proof.
  apply (proj2 (proj2 (extractJobs_records (site [card_full]) [search_url] []
                         _ 1 eq_refl))).
  reflexivity.
Defined.

(** Searching two lists of URLs at once adds the counts; the records are
    those of both searches when neither lost its records, and none
    otherwise: an entry that fails under one URL erases the records found
    under the others. *)
Theorem extractJobs_app
    (w : web) (urls1 urls2 plavras : list string)
    (records1 records2 : list job) (n1 n2 : nat) :
  extractJobs w urls1 plavras = Ok (records1, n1) ->
  extractJobs w urls2 plavras = Ok (records2, n2) ->
  extractJobs w (urls1 ++ urls2) plavras
  = Ok (if Nat.eqb (length records1) n1 && Nat.eqb (length records2) n2
        then records1 ++ records2 else [], n1 + n2).
Proof.
  destruct (executor_map (get_job_cards w) urls1) as [pages1|e] eqn:Hp1;
    [|by rewrite (extractJobs_not_fetched _ _ _ _ Hp1)].
  destruct (executor_map (get_job_cards w) urls2) as [pages2|e] eqn:Hp2;
    [|by rewrite (extractJobs_not_fetched _ _ _ _ Hp2)].
  assert (Hp : executor_map (get_job_cards w) (urls1 ++ urls2)
               = Ok (pages1 ++ pages2))
    by (by rewrite executor_map_app, Hp1, Hp2).
  rewrite (extractJobs_fetched _ _ _ _ Hp1), (extractJobs_fetched _ _ _ _ Hp2),
    (extractJobs_fetched _ _ _ _ Hp).
  rewrite concat_app, length_app, executor_map_app.
  set (f := fun c => get_job_info w c plavras).
  assert (Hfail : forall cs e, executor_map f cs = Raise e ->
                    Nat.eqb (length (@nil job)) (length cs) = false).
  { intros [|c cs] e He; [discriminate | reflexivity]. }
  destruct (executor_map f (concat pages1)) as [jobs1|e1] eqn:Hj1;
    destruct (executor_map f (concat pages2)) as [jobs2|e2] eqn:Hj2;
    intros [= <- <-] [= <- <-]; cbv [rbind]; f_equal; f_equal.
  - by rewrite (executor_map_length _ _ _ Hj1), (executor_map_length _ _ _ Hj2),
      !Nat.eqb_refl.
  - rewrite (Hfail _ _ Hj2). by rewrite andb_false_r.
  - by rewrite (Hfail _ _ Hj1).
  - by rewrite (Hfail _ _ Hj1).
Qed.

Lemma extractJobs_app_witness :
  extractJobs (site [card_full; card_no_company])
              ([search_url] ++ [search_url]) ["python"]
  = Ok ([job_full; job_no_company; job_full; job_no_company], 4).
Proof.
  apply (extractJobs_app (site [card_full; card_no_company])
           [search_url] [search_url] ["python"]
           [job_full; job_no_company] [job_full; job_no_company] 2 2);
    by vm_compute.
Defined.

(** When every search URL is fetched and no page has an entry, the answer is
    the empty pair. *)
Theorem extractJobs_no_entries (w : web) (urls plavras : list string) :
  Forall (fun url => exists page, w url = Ok page /\ cards_of page = []) urls ->
  extractJobs w urls plavras = Ok ([], 0).
Proof.
  intros Hall.
  assert (Hp : exists pages, executor_map (get_job_cards w) urls = Ok pages
                             /\ concat pages = []).
  { induction Hall as [|url urls (page & Hw & Hc) _ (pages & Hp & Hcc)]; simpl.
    - by exists [].
    - exists ([] :: pages). unfold get_job_cards at 1. rewrite Hw. simpl.
      fold (cards_of page). rewrite Hc, Hp. by split. }
  destruct Hp as (pages & Hp & Hc). by eapply extractJobs_no_cards.
Qed.

Lemma extractJobs_no_entries_witness :
  extractJobs (site []) [search_url; search_url] ["python"] = Ok ([], 0).
Proof.
  apply extractJobs_no_entries.
  repeat constructor; exists (listing []); by split.
Defined.

(** A posting page that cannot be fetched leaves the entry without
    description: [get_job_info] raises for it and the batch has no record. *)
Theorem unreachable_posting_empties_batch
    (w : web) (urls plavras : list string) (pages : list (list card))
    (c : card) (t el : tag) (url : string) (e : exn) :
  executor_map (get_job_cards w) urls = Ok pages ->
  c ∈ concat pages ->
  h3_title c = Some t -> a c = Some el -> attrs el !! "href" = Some url ->
  w url = Raise e ->
  extractDescription w url = ∅
  /\ get_job_info w c plavras = Raise KeyError
  /\ extractJobs w urls plavras = Ok ([], length (concat pages)).
Proof.
  intros Hp Hc Ht Ha Hurl Hw.
  assert (Hd : extractDescription w url = ∅)
    by (unfold extractDescription; by rewrite Hw).
  assert (Hk : get_job_info w c plavras = Raise KeyError).
  { unfold get_job_info, text_of at 1, getitem, dict_get.
    rewrite Ht, Ha. simpl. rewrite Hurl. simpl. by rewrite Hd. }
  repeat split; [exact Hd | exact Hk |].
  rewrite (extractJobs_fetched _ _ _ _ Hp).
  assert (Hex : Exists (fun c => exists e, get_job_info w c plavras = Raise e)
                       (concat pages)).
  { apply Exists_exists. exists c. split; [done | eauto]. }
  apply executor_map_Exists in Hex as [e' ->]. reflexivity.
Qed.

Lemma unreachable_posting_empties_batch_witness :
  extractJobs (site [card_full; card_unreachable]) [search_url] ["python"]
  = Ok ([], 2).
Proof.
  refine (proj2 (proj2 (unreachable_posting_empties_batch
            (site [card_full; card_unreachable]) [search_url] ["python"]
            [[card_full; card_unreachable]] card_unreachable
            (el "Go Developer") (link "https://jobs.example/3")
            "https://jobs.example/3" ConnectionError
            eq_refl _ eq_refl eq_refl eq_refl eq_refl))).
  right. left.
Defined.

(** * Properties of the second scorer *)

(** ** The order of the vocabulary *)

Lemma ascii_compare_Lt (c d : ascii) :
  Ascii.compare c d = Lt <-> (N_of_ascii c < N_of_ascii d)%N.
Proof. unfold Ascii.compare. apply N.compare_lt_iff. Qed.

Lemma ascii_compare_Gt (c d : ascii) :
  Ascii.compare c d = Gt <-> (N_of_ascii d < N_of_ascii c)%N.
Proof. unfold Ascii.compare. apply N.compare_gt_iff. Qed.

Lemma string_compare_Lt_trans (s t u : string) :
  String.compare s t = Lt -> String.compare t u = Lt -> String.compare s u = Lt.
Proof.
  revert t u. induction s as [|c s IH]; intros [|d t] [|e u]; simpl; try done.
  destruct (Ascii.compare c d) eqn:Hcd; try done;
    destruct (Ascii.compare d e) eqn:Hde; try done;
    try apply Ascii.compare_eq_iff in Hcd; try apply Ascii.compare_eq_iff in Hde;
    subst; try rewrite Hcd; try rewrite Hde; try done.
  - destruct (Ascii.compare e e) eqn:Hee; [apply IH | done |].
    apply ascii_compare_Gt in Hee. by apply N.lt_irrefl in Hee.
  - intros _ _. apply ascii_compare_Lt in Hcd, Hde.
    assert (H : Ascii.compare c e = Lt)
      by (apply ascii_compare_Lt; by apply N.lt_trans with (N_of_ascii d)).
    by rewrite H.
Qed.

#[local] Instance string_le_trans : Transitive Docsim2.string_le.
Proof.
  intros s t u. unfold Docsim2.string_le, String.leb.
  destruct (String.compare s t) eqn:Hst; [| |done];
    destruct (String.compare t u) eqn:Htu; try done; intros _ _.
  - apply String.compare_eq_iff in Hst as ->. by rewrite Htu.
  - apply String.compare_eq_iff in Hst as ->. by rewrite Htu.
  - apply String.compare_eq_iff in Htu as <-. by rewrite Hst.
  - by rewrite (string_compare_Lt_trans _ _ _ Hst Htu).
Qed.

#[local] Instance string_le_antisym : AntiSymm (=) Docsim2.string_le.
Proof. intros s t. apply String.leb_antisym. Qed.

#[local] Instance string_le_total : Total Docsim2.string_le.
Proof. intros s t. apply String.leb_total. Qed.

Lemma elem_of_concat {A} (x : A) (ls : list (list A)) :
  x ∈ concat ls <-> exists l, l ∈ ls /\ x ∈ l.
Proof.
  rewrite list_elem_of_In, in_concat. split; intros (l & H1 & H2); exists l;
    by rewrite ?list_elem_of_In in *.
Qed.

(** The vocabulary holds each token of the documents once, in order. *)
Lemma vocabulary_spec (docs : list string) :
  StronglySorted Docsim2.string_le (Docsim2.vocabulary docs)
  /\ NoDup (Docsim2.vocabulary docs)
  /\ (forall t, t ∈ Docsim2.vocabulary docs
                <-> exists doc, doc ∈ docs /\ t ∈ Docsim2.analyze doc).
Proof.
  unfold Docsim2.vocabulary. repeat split.
  - apply StronglySorted_merge_sort; apply _.
  - rewrite merge_sort_Permutation. apply NoDup_remove_dups.
  - rewrite merge_sort_Permutation, elem_of_remove_dups.
    intros (l & (doc & -> & Hdoc)%list_elem_of_fmap & Hl)%elem_of_concat. eauto.
  - intros (doc & Hdoc & Ht).
    rewrite merge_sort_Permutation, elem_of_remove_dups.
    apply elem_of_concat. exists (Docsim2.analyze doc).
    split; [|done]. apply list_elem_of_fmap. eauto.
Qed.

(** Two lists of documents with the same tokens have the same vocabulary. *)
Lemma vocabulary_ext (docs docs' : list string) :
  (forall t, (exists doc, doc ∈ docs /\ t ∈ Docsim2.analyze doc)
             <-> (exists doc, doc ∈ docs' /\ t ∈ Docsim2.analyze doc)) ->
  Docsim2.vocabulary docs = Docsim2.vocabulary docs'.
Proof.
  intros Hsame.
  destruct (vocabulary_spec docs) as (Hs & Hn & Hin).
  destruct (vocabulary_spec docs') as (Hs' & Hn' & Hin').
  apply (StronglySorted_unique Docsim2.string_le); [done | done |].
  apply NoDup_Permutation; [done | done |].
  intros t. by rewrite Hin, Hin', Hsame.
Qed.

Lemma vocabulary_nil (docs : list string) :
  Docsim2.vocabulary docs = [] <-> Forall (fun doc => Docsim2.analyze doc = []) docs.
Proof.
  destruct (vocabulary_spec docs) as (_ & _ & Hin). split.
  - intros Hnil. apply Forall_forall. intros doc Hdoc.
    destruct (Docsim2.analyze doc) as [|t ts] eqn:Ht; [done|].
    assert (Hr : t ∈ Docsim2.vocabulary docs).
    { apply Hin. exists doc. split; [done|]. rewrite Ht. by left. }
    rewrite Hnil in Hr. by apply elem_of_nil in Hr.
  - intros Hall. rewrite Forall_forall in Hall.
    destruct (Docsim2.vocabulary docs) as [|t ts]; [done|].
    destruct (proj1 (Hin t)) as (doc & Hdoc & Ht); [by left|].
    rewrite (Hall doc Hdoc) in Ht. by apply elem_of_nil in Ht.
Qed.

(** ** The loop over the keywords *)

(** The loop adds the counts of the first [length plavra] features from
    index [i] on, whatever the keywords are, and fails when there are fewer
    features. *)
Lemma rating_loop_spec (features : list string) (text : string)
    (plavra : list string) (i rating : nat) :
  i <= length features ->
  Docsim2.rating_loop features text i plavra rating
  = if decide (i + length plavra <= length features)
    then Docsim2.Done
           (rating + sum_list (count_occ string_dec (Docsim2.analyze text)
                                 <$> take (length plavra) (drop i features)))
    else Docsim2.Failed Docsim2.IndexError.
Proof.
  revert i rating.
  induction plavra as [|word plavra IH]; intros i rating Hi0; simpl.
  - rewrite decide_True by lia. f_equal. simpl. lia.
  - unfold Docsim2.desc_tf.
    destruct (features !! i) as [term|] eqn:Hi.
    + pose proof (lookup_lt_Some _ _ _ Hi).
      rewrite IH by lia. rewrite (drop_S _ _ _ Hi).
      destruct (decide (S i + length plavra <= length features)) as [Hle|Hgt].
      * rewrite decide_True by lia. f_equal.
        cbn [take fmap list_fmap sum_list_with id]. lia.
      * by rewrite decide_False by lia.
    + apply lookup_ge_None in Hi. by rewrite decide_False by lia.
Qed.

Lemma sum_list_take {A} (f : A -> nat) (k : nat) (l : list A) :
  sum_list (f <$> take k l) <= sum_list (f <$> l).
Proof.
  revert k. induction l as [|x l IH]; intros [|k]; [done | done | simpl; lia |].
  change (take (S k) (x :: l)) with (x :: take k l).
  rewrite !fmap_cons. cbn [sum_list_with id]. specialize (IH k). lia.
Qed.

Lemma sum_list_indicator_in (w : string) (ks : list string) :
  NoDup ks -> w ∈ ks ->
  sum_list ((fun k => if string_dec w k then 1 else 0) <$> ks) = 1.
Proof.
  induction 1 as [|k ks Hk Hks IH]; [by intros ?%elem_of_nil|].
  rewrite fmap_cons. cbn [sum_list_with id].
  intros [->|Hw]%elem_of_cons.
  - destruct (string_dec k k); [|done]. rewrite sum_list_zero; [done|].
    intros y Hy. destruct (string_dec k y) as [->|]; done.
  - destruct (string_dec w k) as [->|]; [done|]. by rewrite IH.
Qed.

(** Over distinct keys that cover the words, the counts add up to the
    number of words. *)
Lemma sum_count_occ_cover (ws ks : list string) :
  NoDup ks -> (forall w, w ∈ ws -> w ∈ ks) ->
  sum_list (count_occ string_dec ws <$> ks) = length ws.
Proof.
  intros Hks. induction ws as [|w ws IH]; intros Hcover; simpl.
  - rewrite sum_list_zero; done.
  - transitivity
      (sum_list ((fun k => (if string_dec w k then 1 else 0)
                           + count_occ string_dec ws k) <$> ks)).
    + f_equal. apply list_fmap_ext. intros i k _. by destruct (string_dec w k).
    + rewrite sum_list_plus, IH, sum_list_indicator_in; [done | done | |].
      * apply Hcover. by left.
      * intros v Hv. apply Hcover. by right.
Qed.

(** The total is the number of tokens of the text. *)
Lemma total_frequency_tokens (plavra : list string) (text : string) :
  Docsim2.total_frequency (Docsim2.vocabulary (plavra ++ [text])) text
  = length (Docsim2.analyze text).
Proof.
  destruct (vocabulary_spec (plavra ++ [text])) as (_ & Hn & Hin).
  unfold Docsim2.total_frequency. apply sum_count_occ_cover; [done|].
  intros w Hw. apply Hin. exists text. split; [|done].
  apply elem_of_app. right. by left.
Qed.

(** ** What the second scorer answers *)

(** [docsim2.rate_text] raises [ValueError] when neither the keywords nor the
    text have a token of two characters, and [IndexError] when there are
    more keywords than features. Otherwise it answers the scaled share, among
    the tokens of the text, of the first [length plavra] features of the
    sorted vocabulary, which is at most all of them. *)
Theorem rate_text2_outcome (plavra : list string) (text : string) :
  (Forall (fun doc => Docsim2.analyze doc = []) (plavra ++ [text]) ->
   Docsim2.rate_text plavra text = Docsim2.Failed Docsim2.ValueError)
  /\ (Docsim2.vocabulary (plavra ++ [text]) <> [] ->
      length (Docsim2.vocabulary (plavra ++ [text])) < length plavra ->
      Docsim2.rate_text plavra text = Docsim2.Failed Docsim2.IndexError)
  /\ (Docsim2.vocabulary (plavra ++ [text]) <> [] ->
      length plavra <= length (Docsim2.vocabulary (plavra ++ [text])) ->
      exists rating : nat,
        rating = sum_list (count_occ string_dec (Docsim2.analyze text)
                             <$> take (length plavra)
                                      (Docsim2.vocabulary (plavra ++ [text])))
        /\ rating <= length (Docsim2.analyze text)
        /\ Docsim2.rate_text plavra text
           = Docsim2.Done (scaled rating (length (Docsim2.analyze text)))).
Proof.
  pose proof (total_frequency_tokens plavra text) as Htotal.
  unfold Docsim2.rate_text. rewrite rating_loop_spec, drop_0 by lia. simpl.
  destruct (Docsim2.vocabulary (plavra ++ [text])) as [|t ts] eqn:Hv.
  - repeat split; try done.
  - repeat split.
    + intros Hall%vocabulary_nil. congruence.
    + intros _ Hlt. by rewrite decide_False by lia.
    + intros _ Hle. rewrite decide_True by lia.
      eexists. split; [reflexivity|]. split.
      * rewrite <- Htotal. apply sum_list_take.
      * rewrite Htotal. unfold scaled.
        by destruct (Nat.eqb (length (Docsim2.analyze text)) 0).
Qed.

Lemma rate_text2_outcome_witness :
  Docsim2.rate_text ["python"; "Python"] "python"
  = Docsim2.Failed Docsim2.IndexError.
Proof.
  apply (proj1 (proj2 (rate_text2_outcome ["python"; "Python"] "python")));
    by vm_compute.
Defined.

(** When the tokens of the keywords all occur in the text, the keywords add
    nothing to the vocabulary, and the score depends on how many keywords
    there are, not on which: the keyword at position [i] is rated by the
    [i]-th feature. *)
Theorem rate_text2_ignores_keywords (plavra plavra' : list string) (text : string) :
  length plavra = length plavra' ->
  Forall (fun kw => Forall (fun t => t ∈ Docsim2.analyze text) (Docsim2.analyze kw))
         plavra ->
  Forall (fun kw => Forall (fun t => t ∈ Docsim2.analyze text) (Docsim2.analyze kw))
         plavra' ->
  Docsim2.vocabulary (plavra ++ [text]) = Docsim2.vocabulary [text]
  /\ Docsim2.rate_text plavra text = Docsim2.rate_text plavra' text.
Proof.
  assert (Habsorb : forall p,
    Forall (fun kw => Forall (fun t => t ∈ Docsim2.analyze text) (Docsim2.analyze kw)) p ->
    Docsim2.vocabulary (p ++ [text]) = Docsim2.vocabulary [text]).
  { intros p Hp. apply vocabulary_ext. intros t. split.
    - intros (doc & [Hdoc|Hdoc]%elem_of_app & Ht).
      + exists text. split; [by left|].
        rewrite Forall_forall in Hp. specialize (Hp doc Hdoc).
        rewrite Forall_forall in Hp. by apply Hp.
      + eauto.
    - intros (doc & Hdoc & Ht). exists doc. split; [|done].
      apply elem_of_app. by right. }
  intros Hlen Hp Hp'. split; [by apply Habsorb|].
  unfold Docsim2.rate_text.
  rewrite (Habsorb _ Hp), (Habsorb _ Hp'), !rating_loop_spec, Hlen by lia.
  reflexivity.
Qed.

Lemma rate_text2_ignores_keywords_witness :
  Docsim2.rate_text ["zebra"] "apple apple zebra"
  = Docsim2.rate_text ["apple"] "apple apple zebra".
Proof.
  apply (rate_text2_ignores_keywords ["zebra"] ["apple"] "apple apple zebra");
    [reflexivity | |]; apply (bool_decide_unpack _); by vm_compute.
Defined.
